(** * Twilly: the conversation state machine of the flow controller

    A shallow embedding of [src/src/SmsCookie/index.ts] (the persisted
    conversation state and its transition helpers) and of
    [src/src/Flows/Controller.ts] ([FlowController.getCurrentFlow],
    [resolveActionFromState], [resolveNextStateFromAction]).

    JavaScript values are modelled as follows:
    - a JS object used as a dictionary ([FlowContext], an action context)
      is a [gmap string _]; spreading [{...o, k: v}] is [<[k := v]> o];
    - a nullable string ([state.flow], [action.name]) is [option string];
      JS falsiness of such a string ([!state.flow]) is [js_falsy];
    - [flowKey] is kept as a [nat] (the code only ever stores
      [Number(...) + 1] or [0] there);
    - a thrown exception is the [Err] constructor of [Result];
    - the one place where the input cookie is mutated in place
      ([updateContext]: [if (!state.flow) state.flow = flow.name]) is
      modelled by returning the input object after the call next to
      the value returned. *)

From Stdlib Require Import List Arith Lia.
From Stdlib Require Import Ascii.
From stdpp Require Import base gmap strings list.
Import ListNotations.
Open Scope string_scope.

(** ** Values stored in action contexts *)

Inductive CtxValue :=
| CStr (s : string)
| CStrList (l : list string)
| CBool (b : bool)
| CNum (z : Z).

(** [ActionContext]: a JS object, from key to value. *)
Abbreviation ActionContext := (gmap string CtxValue).

(** [FlowContext = { [index: string]: ActionContext }] *)
Abbreviation FlowContext := (gmap string ActionContext).

(** [InteractionContext = ActionContext[]] *)
Abbreviation InteractionContext := (list ActionContext).

(** The user context handed to resolvers ([userCtx: any]). *)
Abbreviation UserCtx := (gmap string CtxValue).

(** ** The persisted conversation state ([interface SmsCookie]) *)

Record QuestionState := mkQuestionState {
  attempts : list string;
  isAnswering : bool
}.

Record SmsCookie := mkSmsCookie {
  createdAt : Z;
  from : string;
  flow : option string;
  flowContext : FlowContext;
  flowKey : nat;
  interactionContext : InteractionContext;
  interactionComplete : bool;
  interactionId : string;
  isComplete : bool;
  question : QuestionState
}.

(** Record updates, one per field the code writes with a spread. *)
Definition set_flow (s : SmsCookie) (f : option string) : SmsCookie :=
  mkSmsCookie (createdAt s) (from s) f (flowContext s) (flowKey s)
    (interactionContext s) (interactionComplete s) (interactionId s)
    (isComplete s) (question s).

Definition set_flowContext (s : SmsCookie) (fc : FlowContext) : SmsCookie :=
  mkSmsCookie (createdAt s) (from s) (flow s) fc (flowKey s)
    (interactionContext s) (interactionComplete s) (interactionId s)
    (isComplete s) (question s).

Definition set_flowKey (s : SmsCookie) (k : nat) : SmsCookie :=
  mkSmsCookie (createdAt s) (from s) (flow s) (flowContext s) k
    (interactionContext s) (interactionComplete s) (interactionId s)
    (isComplete s) (question s).

Definition set_interactionContext (s : SmsCookie) (ic : InteractionContext)
  : SmsCookie :=
  mkSmsCookie (createdAt s) (from s) (flow s) (flowContext s) (flowKey s)
    ic (interactionComplete s) (interactionId s)
    (isComplete s) (question s).

Definition set_isComplete (s : SmsCookie) (b : bool) : SmsCookie :=
  mkSmsCookie (createdAt s) (from s) (flow s) (flowContext s) (flowKey s)
    (interactionContext s) (interactionComplete s) (interactionId s)
    b (question s).

Definition set_question (s : SmsCookie) (q : QuestionState) : SmsCookie :=
  mkSmsCookie (createdAt s) (from s) (flow s) (flowContext s) (flowKey s)
    (interactionContext s) (interactionComplete s) (interactionId s)
    (isComplete s) q.

(** JS truthiness of a nullable string: [null] and [""] are falsy. *)
Definition js_falsy (o : option string) : bool :=
  match o with
  | None => true
  | Some "" => true
  | Some _ => false
  end.

(** ** Results: a value or a thrown error *)

Inductive Result (A : Type) :=
| Ok (a : A)
| Err (msg : string).
Arguments Ok {A} a.
Arguments Err {A} msg.

(** ** Actions

    Modelled from the spec: the [Actions] module (classes [Action],
    [Message], [Reply], [Question], [Trigger], [Exit]) is not part of the
    sources; the controller only reads their [name], their context
    snapshot ([ActionGetContext]), the question flags
    ([isAnswered], [isFailed], [QuestionShouldContinueOnFail]), the
    question's delivery receipts ([sid]) and the trigger's target
    ([flowName]).  A question's evaluator ([QuestionEvaluate]) classifies
    an inbound body, given the state, as (answered, failed). *)

Record QuestionData := mkQuestionData {
  q_isAnswered : bool;
  q_isFailed : bool;
  q_continueOnFail : bool;
  q_sid : list string;
  q_evaluate : string -> SmsCookie -> bool * bool
}.

Inductive ActionKind :=
| KMessage
| KReply
| KQuestion (q : QuestionData)
| KTrigger (flowName : string)
| KExit.

Record Action := mkAction {
  act_name : option string;
  act_kind : ActionKind;
  act_context : ActionContext
}.

(** [action[ActionSetName](name)] *)
Definition actionSetName (a : Action) (n : string) : Action :=
  mkAction (Some n) (act_kind a) (act_context a).

(** [new Exit(body)]: an unnamed action whose context holds the body. *)
Definition newExit (body : string) : Action :=
  mkAction None KExit {[ "body" := CStr body ]}.

(** ** Flows

    Modelled from the spec: the [Flow] class is not part of the sources.
    A flow is a name and an ordered list of (action name, resolver);
    [FlowSelectActionResolver(key)] is the resolver at [key] (none out of
    range), [FlowSelectActionName(key)] its name, [FlowActionNames] the
    set of declared names, [length] the number of steps.  A resolver
    returns [None] when it produces a value that is not an [Action]. *)

Definition Resolver := FlowContext -> UserCtx -> option Action.

Record Flow := mkFlow {
  flow_name : string;
  flow_steps : list (string * Resolver)
}.

Definition flow_length (f : Flow) : nat := length (flow_steps f).

Definition flowActionNames_has (f : Flow) (n : option string) : bool :=
  match n with
  | None => false
  | Some n => existsb (String.eqb n) (map fst (flow_steps f))
  end.

Definition flowSelectActionResolver (f : Flow) (key : nat)
  : option (string * Resolver) :=
  nth_error (flow_steps f) key.

(** ** The controller

    [schema] is the [EvaluatedSchema]: a map from flow name to flow,
    absent when no [FlowSchema] was given. *)

Record FlowController := mkFlowController {
  root : Flow;
  schema : option (gmap string Flow);
  testForExit : string -> bool
}.

(** [!this.schema] *)
Definition schema_absent (c : FlowController) : bool :=
  match schema c with
  | Some _ => false
  | None => true
  end.

(** ** [src/src/SmsCookie/index.ts] *)

Definition addQuestionAttempt (state : SmsCookie) (attempt : string)
  : SmsCookie :=
  set_question state
    (mkQuestionState (attempts (question state) ++ [attempt])
                     (isAnswering (question state))).

Definition completeInteraction (state : SmsCookie) : SmsCookie :=
  set_isComplete state true.

Definition handleTrigger (state : SmsCookie) (target : string) : SmsCookie :=
  set_flowContext (set_flowKey (set_flow state (Some target)) 0) ∅.

Definition incrementFlowAction (state : SmsCookie) (f : Flow) : SmsCookie :=
  let newState := set_flowKey state (flowKey state + 1) in
  if Nat.eqb (flowKey newState) (flow_length f)
  then completeInteraction state
  else newState.

Definition startQuestion (state : SmsCookie) : SmsCookie :=
  set_question state (mkQuestionState [] true).

Definition recordQuestionMessageSid (state : SmsCookie) (name : option string)
    (q : QuestionData) : list string :=
  let prevSids :=
    match name with
    | Some n =>
        match flowContext state !! n with
        | Some c =>
            match c !! "messageSid" with
            | Some (CStrList l) => l
            | _ => []
            end
        | None => []
        end
    | None => []
    end in
  (prevSids ++ q_sid q)%list.

Definition getActionContext (state : SmsCookie) (a : Action) : ActionContext :=
  match act_kind a with
  | KQuestion q =>
      <[ "messageSid" := CStrList (recordQuestionMessageSid state (act_name a) q) ]>
        (act_context a)
  | _ => act_context a
  end.

(** [updateContext(state, flow, action)]: on success, the input object
    after the call (its [flow] is written in place when falsy) and the
    new cookie. *)
Definition updateContext (state : SmsCookie) (f : Flow) (a : Action)
  : Result (SmsCookie * SmsCookie) :=
  if negb (flowActionNames_has f (act_name a)) then
    Err "Flow does not have an action with this name"
  else
    let state := if js_falsy (flow state)
                 then set_flow state (Some (flow_name f)) else state in
    let name := default "undefined" (act_name a) in
    Ok (state,
        set_interactionContext
          (set_flowContext state
             (<[ name := getActionContext state a ]> (flowContext state)))
          (interactionContext state ++
             [ <[ "flowName" := CStr (flow_name f) ]> (getActionContext state a) ])).

(** ** [src/src/Flows/Controller.ts] *)

(** [getCurrentFlow(state)] *)
Definition getCurrentFlow (c : FlowController) (state : SmsCookie)
  : Result Flow :=
  if js_falsy (flow state)
     || bool_decide (flow state = Some (flow_name (root c)))
  then Ok (root c)
  else
    match flow state, schema c with
    | Some n, Some m =>
        match m !! n with
        | Some f => Ok f
        | None => Err "Received invalid flow name in SMS cookie"
        end
    | _, _ => Err "Received invalid flow name in SMS cookie"
    end.

(** [currFlow === this.root]: [getCurrentFlow] returns the root object
    exactly on its first branch (the evaluated schema is keyed by flow
    name, so a name other than the root's maps to another flow). *)
Definition currFlowIsRoot (c : FlowController) (state : SmsCookie) : bool :=
  js_falsy (flow state) || bool_decide (flow state = Some (flow_name (root c))).

(** [action[QuestionEvaluate](req, state)], modelled from the spec: the
    question's evaluator classifies the inbound body and the question's
    [isAnswered] / [isFailed] flags are updated accordingly. *)
Definition questionEvaluate (body : string) (state : SmsCookie) (a : Action)
  : Action :=
  match act_kind a with
  | KQuestion q =>
      let '(ans, fail) := q_evaluate q body state in
      mkAction (act_name a)
        (KQuestion (mkQuestionData ans fail (q_continueOnFail q) (q_sid q)
                      (q_evaluate q)))
        (act_context a)
  | _ => a
  end.

(** [resolveActionFromState(req, state, userCtx)]: the names of the
    steps whose resolver was invoked, and the action returned ([None] for
    [null]) or the error thrown. *)
Definition resolveActionFromState (c : FlowController) (body : string)
    (state : SmsCookie) (userCtx : UserCtx)
  : list string * Result (option Action) :=
  if isComplete state then ([], Ok None)
  else if testForExit c body then ([], Ok (Some (newExit body)))
  else
    let key := flowKey state in
    match getCurrentFlow c state with
    | Err e => ([], Err e)
    | Ok currFlow =>
        match flowSelectActionResolver currFlow key with
        | None => ([], Ok None)
        | Some (nm, resolveAction) =>
            ([nm],
             match resolveAction (flowContext state) userCtx with
             | None => Ok None
             | Some action =>
                 let action := questionEvaluate body state action in
                 Ok (Some (actionSetName action nm))
             end)
        end
    end.

(** Threading [updateContext] through a pipe: [aliased] says whether the
    cookie handed to [updateContext] is the caller's input object (so the
    in-place write of [flow] is visible to the caller); [k] is the rest
    of the pipe. *)
Definition pipeUpdate (input : SmsCookie) (aliased : bool)
    (r : Result (SmsCookie * SmsCookie)) (k : SmsCookie -> SmsCookie)
  : SmsCookie * Result SmsCookie :=
  match r with
  | Err e => (input, Err e)
  | Ok (arg, s) => (if aliased then arg else input, Ok (k s))
  end.

(** The target check of the [Trigger] branch: [trigger.flowName ===
    this.root.name || this.schema.has(trigger.flowName)]; with no schema
    the [.has] call itself throws. *)
Definition triggerTargetCheck (c : FlowController) (target : string)
  : Result unit :=
  if String.eqb target (flow_name (root c)) then Ok tt
  else
    match schema c with
    | None => Err "Cannot read properties of undefined (reading 'has')"
    | Some m =>
        if bool_decide (is_Some (m !! target)) then Ok tt
        else Err "Trigger constructors expect a name of an existing Flow"
    end.

(** [resolveNextStateFromAction(req, state, action)]: the input cookie
    after the call, and the new cookie or the error thrown.  [None] is an
    [action] that is not an [Action] instance. *)
Definition resolveNextStateFromAction (c : FlowController) (body : string)
    (state : SmsCookie) (action : option Action)
  : SmsCookie * Result SmsCookie :=
  match getCurrentFlow c state with
  | Err e => (state, Err e)
  | Ok currFlow =>
      match action with
      | None => (state, Ok (completeInteraction state))
      | Some action =>
          match act_kind action with
          | KExit =>
              pipeUpdate state true (updateContext state currFlow action)
                completeInteraction
          | KQuestion q =>
              let answering := isAnswering (question state) in
              let st := if answering then addQuestionAttempt state body
                        else state in
              if q_isAnswered q then
                pipeUpdate state (negb answering)
                  (updateContext st currFlow action)
                  (fun s => incrementFlowAction s currFlow)
              else if q_isFailed q then
                if q_continueOnFail q then
                  pipeUpdate state (negb answering)
                    (updateContext st currFlow action)
                    (fun s => incrementFlowAction s currFlow)
                else
                  pipeUpdate state (negb answering)
                    (updateContext st currFlow action)
                    completeInteraction
              else if answering then
                pipeUpdate state false (updateContext st currFlow action)
                  (fun s => s)
              else
                pipeUpdate state false
                  (updateContext (startQuestion st) currFlow action)
                  (fun s => s)
          | KTrigger target =>
              if currFlowIsRoot c state && schema_absent c then
                (state, Err "Cannot use Trigger action without a defined Flow schema")
              else
                match triggerTargetCheck c target with
                | Err e => (state, Err e)
                | Ok _ =>
                    pipeUpdate state true (updateContext state currFlow action)
                      (fun s => handleTrigger s target)
                end
          | _ =>
              pipeUpdate state true (updateContext state currFlow action)
                (fun s => incrementFlowAction s currFlow)
          end
      end
  end.

(** ** Sample inputs *)

Module Samples.

Definition replyResolver (n : string) : Resolver :=
  fun _ _ => Some (mkAction None KReply {[ "body" := CStr n ]}).

(** A root flow with two steps, and a second flow. *)
Definition rootFlow : Flow :=
  mkFlow "root" [("a", replyResolver "a"); ("b", replyResolver "b")].

Definition otherFlow : Flow :=
  mkFlow "other" [("c", replyResolver "c")].

Definition exitTest (body : string) : bool := String.eqb body "exit".

Definition fcNoSchema : FlowController :=
  mkFlowController rootFlow None exitTest.

Definition fcSchema : FlowController :=
  mkFlowController rootFlow
    (Some (<[ "other" := otherFlow ]> {[ "root" := rootFlow ]})) exitTest.

(** [createSmsCookie(req)] *)
Definition freshCookie : SmsCookie :=
  mkSmsCookie 0 "+15550000000" None ∅ 0 [] false "id0" false
    (mkQuestionState [] false).

Definition reply (n : string) : Action :=
  mkAction (Some n) KReply {[ "body" := CStr n ]}.

Definition trigger (n target : string) : Action :=
  mkAction (Some n) (KTrigger target) {[ "flowName" := CStr target ]}.

Definition questionData (ans fail cont : bool) : QuestionData :=
  mkQuestionData ans fail cont [] (fun _ _ => (ans, fail)).

Definition questionAction (n : string) (ans fail cont : bool) : Action :=
  mkAction (Some n) (KQuestion (questionData ans fail cont))
    {[ "question" := CStr n ]}.

Definition answeringAt (k : nat) : SmsCookie :=
  set_flowKey (set_question freshCookie (mkQuestionState ["x"] true)) k.

End Samples.

(** ** What recording an action's context does *)

(** [updateContext]'s in-place write: the input with its falsy [flow]
    set to the flow's name. *)
Definition withFlowName (state : SmsCookie) (f : Flow) : SmsCookie :=
  if js_falsy (flow state) then set_flow state (Some (flow_name f)) else state.

(** The entry [updateContext] appends to the interaction history. *)
Definition historyEntry (state : SmsCookie) (f : Flow) (a : Action)
  : ActionContext :=
  <[ "flowName" := CStr (flow_name f) ]> (getActionContext state a).

(** [st'] carries the context of [a] recorded on top of [st]: the
    flow-scoped snapshot under the action's name and one new history
    entry. *)
Definition recordsContext (st : SmsCookie) (f : Flow) (a : Action)
    (st' : SmsCookie) : Prop :=
  exists n, act_name a = Some n /\
    flowContext st' = <[ n := getActionContext st a ]> (flowContext st) /\
    interactionContext st' = (interactionContext st ++ [historyEntry st f a])%list.

(** ** Running a sequence of state transitions

    Each step is an inbound body and the action outcome; the cookie
    returned by one call is the one handed to the next. *)
Fixpoint runNextStates (c : FlowController) (state : SmsCookie)
    (steps : list (string * option Action)) : Result SmsCookie :=
  match steps with
  | [] => Ok state
  | (body, action) :: rest =>
      match snd (resolveNextStateFromAction c body state action) with
      | Err e => Err e
      | Ok state' => runNextStates c state' rest
      end
  end.

(** ** Construction ([FlowController]'s constructor, [createSmsCookie]) *)

(** [new FlowController(root, schema, options)].  The type checks on
    [root], [schema] and [testForExit] are enforced by the types here.
    [evaluated] is the result of [evaluateSchema(root, schema)] when a
    schema is given; modelled from the spec: [evaluateSchema] is not part
    of the sources, it flattens the declared schema into a map from flow
    name to flow. *)
Definition newFlowController (root : Flow) (evaluated : option (gmap string Flow))
    (testForExit : string -> bool) : Result FlowController :=
  if Nat.eqb (flow_length root) 0 then
    Err "All Flows must perform at least one action. Check the root Flow"
  else
    match evaluated with
    | Some m =>
        if Nat.eqb (size m) 1 then
          Err "If you provide the schema parameter, it must include a flow distinct from the root Flow"
        else Ok (mkFlowController root (Some m) testForExit)
    | None => Ok (mkFlowController root None testForExit)
    end.

(** [createSmsCookie(req)]: [now] is [new Date()], [id] is
    [uniqueString()], [sender] is [req.body.From]. *)
Definition createSmsCookie (now : Z) (sender id : string) : SmsCookie :=
  mkSmsCookie now sender None ∅ 0 [] false id false (mkQuestionState [] false).

(** ** The default exit test: [/(\b)(exit)(\b)/i.test(body)]

    Over the body's characters: [\w] is [[A-Za-z0-9_]], a word boundary
    at [p] is a change of "word character" between positions [p - 1] and
    [p] (outside the string counts as non-word), and the [i] flag
    compares letters case-insensitively. *)
Definition is_word_char (a : ascii) : bool :=
  let n := nat_of_ascii a in
  (Nat.leb 97 n && Nat.leb n 122) || (Nat.leb 65 n && Nat.leb n 90) ||
  (Nat.leb 48 n && Nat.leb n 57) || Nat.eqb n 95.

Definition to_lower (a : ascii) : ascii :=
  let n := nat_of_ascii a in
  if Nat.leb 65 n && Nat.leb n 90 then ascii_of_nat (n + 32) else a.

Definition wordAt (l : list ascii) (p : nat) : bool :=
  match nth_error l p with
  | Some a => is_word_char a
  | None => false
  end.

Definition wordBoundary (l : list ascii) (p : nat) : bool :=
  xorb (match p with 0 => false | S q => wordAt l q end) (wordAt l p).

Definition exitWord : list ascii := String.list_ascii_of_string "exit".

Definition exitMatchAt (l : list ascii) (i : nat) : bool :=
  wordBoundary l i &&
  bool_decide (map to_lower (firstn 4 (skipn i l)) = exitWord) &&
  wordBoundary l (i + 4).

Definition exitRegexpTest (l : list ascii) : bool :=
  existsb (exitMatchAt l) (seq 0 (S (length l))).

Definition defaultTestForExit (body : string) : bool :=
  exitRegexpTest (String.list_ascii_of_string body).

(** ** The webhook handler ([handleIncomingSmsWebhook], index.ts)

    [Question.isComplete], modelled from the spec (the [Question] class
    is not part of the sources): a question is complete once answered or
    failed. *)
Definition questionIsComplete (a : Action) : bool :=
  match act_kind a with
  | KQuestion q => q_isAnswered q || q_isFailed q
  | _ => false
  end.

(** The loop's break test after a transition: [state.isComplete ||
    (action instanceof Question && !action.isComplete)]. *)
Definition loopBreaks (st : SmsCookie) (a : Action) : bool :=
  isComplete st ||
  match act_kind a with
  | KQuestion _ => negb (questionIsComplete a)
  | _ => false
  end.

(** How the delivery loop ends: with the state reached, with an error
    (thrown by delivery, a transition or a resolution), or out of fuel
    (the JS loop need not terminate: triggers may cycle).  Each carries
    the actions handed to [tc.handleAction], in order. *)
Inductive LoopOutcome :=
| LoopDone (sent : list Action) (st : SmsCookie)
| LoopFailed (sent : list Action)
| LoopOutOfFuel (sent : list Action).

Definition loopPrepend (a : Action) (o : LoopOutcome) : LoopOutcome :=
  match o with
  | LoopDone sent st => LoopDone (a :: sent) st
  | LoopFailed sent => LoopFailed (a :: sent)
  | LoopOutOfFuel sent => LoopOutOfFuel (a :: sent)
  end.

(** [while (action !== null) { ... }]: [handleAction] is the delivery
    ([tc.handleAction]), an external collaborator that may throw. *)
Fixpoint deliveryLoop (handleAction : Action -> Result unit) (fuel : nat)
    (c : FlowController) (body : string) (userCtx : UserCtx)
    (st : SmsCookie) (action : Action) : LoopOutcome :=
  match fuel with
  | 0 => LoopOutOfFuel []
  | S fuel =>
      match handleAction action with
      | Err _ => LoopFailed []
      | Ok _ =>
          loopPrepend action
            (match snd (resolveNextStateFromAction c body st (Some action)) with
             | Err _ => LoopFailed []
             | Ok st' =>
                 if loopBreaks st' action then LoopDone [] st'
                 else
                   match snd (resolveActionFromState c body st' userCtx) with
                   | Err _ => LoopFailed []
                   | Ok None => LoopDone [] st'
                   | Ok (Some a) =>
                       deliveryLoop handleAction fuel c body userCtx st' a
                   end
             end)
      end
  end.

(** What the handler does with the cookie: [tc.clearSmsCookie(res)] or
    [tc.setSmsCookie(res, state)]. *)
Inductive CookieOutcome :=
| CookieCleared
| CookieSet (st : SmsCookie).

Record WebhookOutcome := mkWebhookOutcome {
  wh_sent : list Action;
  wh_cookie : CookieOutcome;
  wh_failed : bool
}.

Definition finishState (sent : list Action) (st : SmsCookie) : WebhookOutcome :=
  if isComplete st then mkWebhookOutcome sent CookieCleared false
  else mkWebhookOutcome sent (CookieSet st) false.

(** [handleIncomingSmsWebhook] from the loaded cookie [st] and the user
    context on: resolve the first action, run the delivery loop, then
    clear the cookie of a complete conversation or persist the state;
    any error goes to the [catch] block, which clears the cookie.  The
    hooks ([onMessage], [onInteractionEnd], [onCatchError]) only send
    notifications and never change the cookie; their messages are not
    part of [wh_sent].  [None]: the loop ran out of fuel. *)
Definition handleIncomingSmsWebhook (handleAction : Action -> Result unit)
    (fuel : nat) (c : FlowController) (body : string) (userCtx : UserCtx)
    (st : SmsCookie) : option WebhookOutcome :=
  match snd (resolveActionFromState c body st userCtx) with
  | Err _ => Some (mkWebhookOutcome [] CookieCleared true)
  | Ok None => Some (finishState [] st)
  | Ok (Some a) =>
      match deliveryLoop handleAction fuel c body userCtx st a with
      | LoopDone sent st' => Some (finishState sent st')
      | LoopFailed sent => Some (mkWebhookOutcome sent CookieCleared true)
      | LoopOutOfFuel _ => None
      end
  end.

(** The actions a loop outcome has sent. *)
Definition loopSent (o : LoopOutcome) : list Action :=
  match o with
  | LoopDone sent _ => sent
  | LoopFailed sent => sent
  | LoopOutOfFuel sent => sent
  end.

(** ** Sample inputs for the handler *)

Module HandlerSamples.
Import Samples.

(** A question whose evaluation stays pending. *)
Definition pendingQuestion : QuestionData :=
  mkQuestionData false false false [] (fun _ _ => (false, false)).

Definition pendingResolver : Resolver :=
  fun _ _ => Some (mkAction None (KQuestion pendingQuestion)
                              {[ "prompt" := CStr "q" ]}).

(** A root flow: a reply, a question, a reply. *)
Definition quizFlow : Flow :=
  mkFlow "quiz" [("a", replyResolver "a"); ("q", pendingResolver);
                 ("c", replyResolver "c")].

Definition fcQuiz : FlowController := mkFlowController quizFlow None exitTest.

Definition deliverAll (_ : Action) : Result unit := Ok tt.

(** A cookie whose flow context already holds a receipt under "a". *)
Definition cookieWithReceipt : SmsCookie :=
  set_flowContext freshCookie
    {[ "a" := {[ "messageSid" := CStrList ["SM1"] ]} ]}.

Definition receiptQuestion : QuestionData :=
  mkQuestionData false false false ["SM2"] (fun _ _ => (false, false)).

End HandlerSamples.

(** * Properties *)

Lemma getActionContext_flowContext st1 st2 a :
  flowContext st1 = flowContext st2 ->
  getActionContext st1 a = getActionContext st2 a.
Proof.
  intros H. unfold getActionContext, recordQuestionMessageSid.
  destruct (act_kind a); try reflexivity. rewrite H. reflexivity.
Qed.

Lemma withFlowName_flowContext st f :
  flowContext (withFlowName st f) = flowContext st.
Proof. unfold withFlowName. destruct (js_falsy (flow st)); reflexivity. Qed.

Lemma withFlowName_interactionContext st f :
  interactionContext (withFlowName st f) = interactionContext st.
Proof. unfold withFlowName. destruct (js_falsy (flow st)); reflexivity. Qed.

Lemma withFlowName_keeps st f :
  flowKey (withFlowName st f) = flowKey st /\
  isComplete (withFlowName st f) = isComplete st /\
  question (withFlowName st f) = question st.
Proof. unfold withFlowName. destruct (js_falsy (flow st)); auto. Qed.

(** [updateContext] on a declared name. *)
Lemma updateContext_declared st f a n :
  act_name a = Some n ->
  flowActionNames_has f (Some n) = true ->
  updateContext st f a =
    Ok (withFlowName st f,
        set_interactionContext
          (set_flowContext (withFlowName st f)
             (<[ n := getActionContext st a ]> (flowContext st)))
          (interactionContext st ++ [historyEntry st f a])%list).
Proof.
  intros Hn Hhas. unfold updateContext, historyEntry.
  rewrite Hn, Hhas. simpl.
  assert (Hg : getActionContext
                 (if js_falsy (flow st) then set_flow st (Some (flow_name f))
                  else st) a = getActionContext st a).
  { apply getActionContext_flowContext.
    destruct (js_falsy (flow st)); reflexivity. }
  rewrite Hg. fold (withFlowName st f).
  rewrite withFlowName_flowContext, withFlowName_interactionContext.
  reflexivity.
Qed.

(** [updateContext] throws before touching anything on an undeclared
    name. *)
Lemma updateContext_undeclared st f a :
  flowActionNames_has f (act_name a) = false ->
  exists e, updateContext st f a = Err e.
Proof. intros H. unfold updateContext. rewrite H. eexists. reflexivity. Qed.

Lemma has_declared f a :
  flowActionNames_has f (act_name a) = true ->
  exists n, act_name a = Some n /\ flowActionNames_has f (Some n) = true.
Proof. destruct (act_name a) as [n|]; [eauto | discriminate]. Qed.

(** The fields [updateContext]'s result keeps from its input. *)
Lemma updateContext_result_keeps st f a n :
  act_name a = Some n ->
  flowActionNames_has f (Some n) = true ->
  exists arg s, updateContext st f a = Ok (arg, s) /\
    recordsContext st f a s /\
    flowKey s = flowKey st /\ isComplete s = isComplete st /\
    question s = question st.
Proof.
  intros Hn Hhas. rewrite (updateContext_declared st f a n Hn Hhas).
  do 2 eexists. split; [reflexivity|].
  destruct (withFlowName_keeps st f) as (H1 & H2 & H3).
  split; [exists n; simpl; rewrite ?withFlowName_flowContext; auto|].
  simpl. auto.
Qed.

Lemma incrementFlowAction_last s f :
  flowKey s + 1 = flow_length f ->
  incrementFlowAction s f = completeInteraction s.
Proof. intros H. unfold incrementFlowAction. simpl. rewrite H, Nat.eqb_refl. reflexivity. Qed.

Lemma incrementFlowAction_not_last s f :
  flowKey s + 1 <> flow_length f ->
  incrementFlowAction s f = set_flowKey s (flowKey s + 1).
Proof.
  intros H. unfold incrementFlowAction. simpl.
  apply Nat.eqb_neq in H. rewrite H. reflexivity.
Qed.

Lemma incrementFlowAction_keeps s f :
  interactionContext (incrementFlowAction s f) = interactionContext s /\
  flowContext (incrementFlowAction s f) = flowContext s /\
  question (incrementFlowAction s f) = question s.
Proof.
  unfold incrementFlowAction. simpl.
  destruct (Nat.eqb _ _); repeat split.
Qed.

Arguments withFlowName : simpl never.

Lemma historyEntry_flowContext st1 st2 f a :
  flowContext st1 = flowContext st2 ->
  historyEntry st1 f a = historyEntry st2 f a.
Proof.
  intros H. unfold historyEntry. rewrite (getActionContext_flowContext st1 st2 a H).
  reflexivity.
Qed.

(** The successful result of recording [a] on [st0], then running [k]. *)
Lemma pipeUpdate_declared input al st0 f a n k :
  act_name a = Some n ->
  flowActionNames_has f (Some n) = true ->
  snd (pipeUpdate input al (updateContext st0 f a) k) =
    Ok (k (set_interactionContext
             (set_flowContext (withFlowName st0 f)
                (<[ n := getActionContext st0 a ]> (flowContext st0)))
             (interactionContext st0 ++ [historyEntry st0 f a])%list)).
Proof. intros Hn Hh. rewrite (updateContext_declared st0 f a n Hn Hh). reflexivity. Qed.

Lemma pipeUpdate_undeclared input al st0 f a k :
  flowActionNames_has f (act_name a) = false ->
  pipeUpdate input al (updateContext st0 f a) k =
    (input, Err "Flow does not have an action with this name").
Proof. intros H. unfold updateContext. rewrite H. reflexivity. Qed.

(** Whatever the outcome, a pipe through [updateContext] appends at most
    one history entry, provided the rest of the pipe keeps the history. *)
Lemma pipeUpdate_history input al st0 f a k s' :
  interactionContext st0 = interactionContext input ->
  (forall s, interactionContext (k s) = interactionContext s) ->
  snd (pipeUpdate input al (updateContext st0 f a) k) = Ok s' ->
  exists e, interactionContext s' = (interactionContext input ++ [e])%list.
Proof.
  intros H0 Hk. destruct (flowActionNames_has f (act_name a)) eqn:Hh.
  - destruct (has_declared f a Hh) as (n & Hn & Hh').
    rewrite (pipeUpdate_declared input al st0 f a n k Hn Hh').
    intros Heq. injection Heq as <-. rewrite Hk. simpl.
    rewrite H0. eauto.
  - rewrite (pipeUpdate_undeclared input al st0 f a k Hh). discriminate.
Qed.

(** Without a schema, a flow resolves only when it is the root. *)
Lemma getCurrentFlow_no_schema c st f :
  schema c = None -> getCurrentFlow c st = Ok f ->
  currFlowIsRoot c st = true.
Proof.
  intros Hs. unfold getCurrentFlow, currFlowIsRoot.
  destruct (_ || _); [reflexivity|].
  rewrite Hs. destruct (flow st); discriminate.
Qed.

Lemma withFlowName_flowKey st f : flowKey (withFlowName st f) = flowKey st.
Proof. apply withFlowName_keeps. Qed.

Lemma withFlowName_isComplete st f : isComplete (withFlowName st f) = isComplete st.
Proof. apply withFlowName_keeps. Qed.

Lemma withFlowName_question st f : question (withFlowName st f) = question st.
Proof. apply withFlowName_keeps. Qed.

Create Rewrite HintDb cookie.
#[local] Hint Rewrite withFlowName_flowKey withFlowName_isComplete
  withFlowName_question withFlowName_flowContext
  withFlowName_interactionContext : cookie.

(** Reduce the branch selection of [resolveNextStateFromAction] once the
    flow, the action kind and the question flags are known. *)
Ltac branch Hc :=
  unfold resolveNextStateFromAction; rewrite Hc; cbv beta iota zeta.

(** The cookie [updateContext] returns records the action's context
    relative to any cookie with the same flow context and history. *)
Lemma updateContext_records st st0 f a n :
  act_name a = Some n ->
  flowContext st0 = flowContext st ->
  interactionContext st0 = interactionContext st ->
  recordsContext st f a
    (set_interactionContext
       (set_flowContext (withFlowName st0 f)
          (<[ n := getActionContext st0 a ]> (flowContext st0)))
       (interactionContext st0 ++ [historyEntry st0 f a])%list).
Proof.
  intros Hn H1 H2. exists n. simpl. split; [exact Hn|].
  rewrite (getActionContext_flowContext st0 st a H1),
    (historyEntry_flowContext st0 st f a H1), H1, H2.
  split; reflexivity.
Qed.

Lemma recordsContext_complete st f a s :
  recordsContext st f a s -> recordsContext st f a (completeInteraction s).
Proof. intros (n & Hn & H1 & H2). exists n. simpl. auto. Qed.

Lemma recordsContext_increment st f a s g :
  recordsContext st f a s -> recordsContext st f a (incrementFlowAction s g).
Proof.
  intros (n & Hn & H1 & H2). exists n.
  destruct (incrementFlowAction_keeps s g) as (K1 & K2 & _).
  rewrite K1, K2. auto.
Qed.

(** ** Flow resolution *)

(** C7: an unset (falsy) active flow name or the root's name resolves to
    the root; any other name resolves to the schema's flow of that name,
    and raises an invalid-flow-reference error when the name is absent
    from the schema or there is no schema. *)
Theorem getCurrentFlow_spec (c : FlowController) (st : SmsCookie) :
  ((js_falsy (flow st) = true \/ flow st = Some (flow_name (root c))) ->
   getCurrentFlow c st = Ok (root c)) /\
  (forall n, flow st = Some n -> js_falsy (Some n) = false ->
     n <> flow_name (root c) ->
     (forall m f, schema c = Some m -> m !! n = Some f ->
        getCurrentFlow c st = Ok f) /\
     (match schema c with None => True | Some m => m !! n = None end ->
        getCurrentFlow c st = Err "Received invalid flow name in SMS cookie")).
Proof.
  split.
  - intros [H | H]; unfold getCurrentFlow.
    + rewrite H. reflexivity.
    + rewrite H, bool_decide_eq_true_2 by reflexivity.
      rewrite orb_true_r. reflexivity.
  - intros n Hn Hf Hne. unfold getCurrentFlow.
    rewrite Hn, Hf, bool_decide_eq_false_2 by congruence. simpl.
    split.
    + intros m f Hm Hl. rewrite Hm, Hl. reflexivity.
    + destruct (schema c) as [m|]; [intros Hl; rewrite Hl|]; reflexivity.
Qed.

(** ** Action resolution *)

(** C8: a complete conversation resolves to no action, and no resolver
    is invoked. *)
Theorem resolveActionFromState_complete (c : FlowController) (body : string)
    (st : SmsCookie) (u : UserCtx) :
  isComplete st = true ->
  resolveActionFromState c body st u = ([], Ok None).
Proof. intros H. unfold resolveActionFromState. rewrite H. reflexivity. Qed.

(** C9: on an incomplete conversation, an inbound body passing the exit
    test resolves to an [Exit] action carrying that body, with no step
    resolver invoked. *)
Theorem resolveActionFromState_exit (c : FlowController) (body : string)
    (st : SmsCookie) (u : UserCtx) :
  isComplete st = false ->
  testForExit c body = true ->
  resolveActionFromState c body st u = ([], Ok (Some (newExit body))).
Proof.
  intros H1 H2. unfold resolveActionFromState. rewrite H1, H2. reflexivity.
Qed.

(** ** The advance rule *)

(** C10: when [flowKey + 1] reaches the flow's length,
    [incrementFlowAction] completes the interaction and leaves [flowKey]
    as it was; otherwise it increments [flowKey] and leaves [isComplete]
    as it was. *)
Theorem incrementFlowAction_spec (s : SmsCookie) (f : Flow) :
  (flowKey s + 1 = flow_length f ->
   isComplete (incrementFlowAction s f) = true /\
   flowKey (incrementFlowAction s f) = flowKey s) /\
  (flowKey s + 1 <> flow_length f ->
   flowKey (incrementFlowAction s f) = flowKey s + 1 /\
   isComplete (incrementFlowAction s f) = isComplete s).
Proof.
  split; intros H.
  - rewrite (incrementFlowAction_last s f H). split; reflexivity.
  - rewrite (incrementFlowAction_not_last s f H). split; reflexivity.
Qed.

(** ** State transitions *)

(** C5: a [Reply] or [Message] at the last position of the active flow
    completes the interaction. *)
Theorem nextState_reply_last_completes (c : FlowController) (body : string)
    (st : SmsCookie) (a : Action) (f : Flow) :
  getCurrentFlow c st = Ok f ->
  (act_kind a = KReply \/ act_kind a = KMessage) ->
  flowActionNames_has f (act_name a) = true ->
  flowKey st + 1 = flow_length f ->
  exists s', snd (resolveNextStateFromAction c body st (Some a)) = Ok s' /\
    isComplete s' = true.
Proof.
  intros Hc Hk Hh Hlast. destruct (has_declared f a Hh) as (n & Hn & Hh').
  branch Hc.
  destruct Hk as [Hk | Hk]; rewrite Hk;
    rewrite (pipeUpdate_declared _ _ _ _ _ n _ Hn Hh');
    eexists; split; try reflexivity;
    rewrite incrementFlowAction_last; try reflexivity;
    simpl; autorewrite with cookie; exact Hlast.
Qed.

(** C3 (as amended): a pending question on a state that is not answering
    starts answering with no attempts and keeps the position; an answered
    question on an answering state appends the inbound body as exactly
    one attempt and advances the position by one, except that an advance
    reaching the flow's length completes the interaction and keeps the
    position. *)
Theorem nextState_question_cycle (c : FlowController) (body : string)
    (st : SmsCookie) (a : Action) (q : QuestionData) (f : Flow) :
  getCurrentFlow c st = Ok f ->
  act_kind a = KQuestion q ->
  flowActionNames_has f (act_name a) = true ->
  (q_isAnswered q = false -> q_isFailed q = false ->
   isAnswering (question st) = false ->
   exists s', snd (resolveNextStateFromAction c body st (Some a)) = Ok s' /\
     isAnswering (question s') = true /\ attempts (question s') = [] /\
     flowKey s' = flowKey st) /\
  (q_isAnswered q = true -> isAnswering (question st) = true ->
   exists s', snd (resolveNextStateFromAction c body st (Some a)) = Ok s' /\
     attempts (question s') = (attempts (question st) ++ [body])%list /\
     (flowKey st + 1 = flow_length f ->
        flowKey s' = flowKey st /\ isComplete s' = true) /\
     (flowKey st + 1 <> flow_length f -> flowKey s' = flowKey st + 1)).
Proof.
  intros Hc Hk Hh. destruct (has_declared f a Hh) as (n & Hn & Hh').
  split.
  - intros Hans Hfail Hing. branch Hc. rewrite Hk, Hans, Hfail, Hing.
    cbv beta iota.
    rewrite (pipeUpdate_declared _ _ _ _ _ n _ Hn Hh').
    eexists; split; [reflexivity|].
    simpl. autorewrite with cookie. simpl. auto.
  - intros Hans Hing. branch Hc. rewrite Hk, Hans, Hing.
    cbv beta iota.
    rewrite (pipeUpdate_declared _ _ _ _ _ n _ Hn Hh').
    eexists; split; [reflexivity|].
    match goal with |- context [incrementFlowAction ?x f] => set (X := x) end.
    assert (HX : flowKey X = flowKey st /\ isComplete X = isComplete st /\
                 question X = question (addQuestionAttempt st body)).
    { subst X. simpl. autorewrite with cookie. simpl. auto. }
    destruct HX as (HX1 & HX2 & HX3).
    split; [|split].
    + rewrite (proj2 (proj2 (incrementFlowAction_keeps X f))), HX3.
      reflexivity.
    + intros Hlast. rewrite incrementFlowAction_last by congruence.
      simpl. auto.
    + intros Hnl. rewrite incrementFlowAction_not_last by congruence.
      cbn [flowKey set_flowKey]. rewrite HX1. reflexivity.
Qed.

(** C4 (as amended): a question evaluated as failed (and not answered)
    records its context; without [continueOnFail] it completes the
    interaction; with [continueOnFail] it advances the position by one,
    except that an advance reaching the flow's length completes the
    interaction and keeps the position. *)
Theorem nextState_question_failed (c : FlowController) (body : string)
    (st : SmsCookie) (a : Action) (q : QuestionData) (f : Flow) :
  getCurrentFlow c st = Ok f ->
  act_kind a = KQuestion q ->
  q_isAnswered q = false -> q_isFailed q = true ->
  flowActionNames_has f (act_name a) = true ->
  (q_continueOnFail q = false ->
   exists s', snd (resolveNextStateFromAction c body st (Some a)) = Ok s' /\
     recordsContext st f a s' /\ isComplete s' = true) /\
  (q_continueOnFail q = true ->
   exists s', snd (resolveNextStateFromAction c body st (Some a)) = Ok s' /\
     recordsContext st f a s' /\
     (flowKey st + 1 = flow_length f ->
        flowKey s' = flowKey st /\ isComplete s' = true) /\
     (flowKey st + 1 <> flow_length f -> flowKey s' = flowKey st + 1)).
Proof.
  intros Hc Hk Hans Hfail Hh. destruct (has_declared f a Hh) as (n & Hn & Hh').
  set (st0 := if isAnswering (question st) then addQuestionAttempt st body
              else st).
  assert (H0 : flowContext st0 = flowContext st /\
               interactionContext st0 = interactionContext st /\
               flowKey st0 = flowKey st /\ isComplete st0 = isComplete st).
  { subst st0. destruct (isAnswering (question st)); repeat split. }
  destruct H0 as (H01 & H02 & H03 & H04).
  split; intros Hcont; branch Hc; rewrite Hk, Hans, Hfail, Hcont;
    cbv beta iota; fold st0;
    rewrite (pipeUpdate_declared _ _ _ _ _ n _ Hn Hh');
    eexists; (split; [reflexivity|]);
    pose proof (updateContext_records st st0 f a n Hn H01 H02) as HR.
  - split; [apply recordsContext_complete, HR | reflexivity].
  - match goal with
    | HR : recordsContext _ _ _ ?x |- _ => set (X := x) in *
    end.
    assert (HX : flowKey X = flowKey st /\ isComplete X = isComplete st).
    { subst X. simpl. autorewrite with cookie. auto. }
    destruct HX as (HX1 & HX2).
    split; [apply recordsContext_increment, HR|split].
    + intros Hlast. rewrite incrementFlowAction_last by congruence.
      simpl. auto.
    + intros Hnl. rewrite incrementFlowAction_not_last by congruence.
      cbn [flowKey set_flowKey]. rewrite HX1. reflexivity.
Qed.

(** C1 (as amended): with the active flow resolved, a [Trigger] succeeds
    exactly when the controller has a schema, the target is the root's
    name or a flow of the schema, and the trigger's name is declared on
    the active flow; without a schema every trigger raises an error, a
    trigger to the root's own name included.  On success the trigger's
    context is recorded (one new history entry after the previous
    history) and the state moves to the target flow at position 0 with
    an empty flow context, question sub-state and completion unchanged. *)
Theorem nextState_trigger (c : FlowController) (body : string)
    (st : SmsCookie) (a : Action) (target : string) (f : Flow) :
  getCurrentFlow c st = Ok f ->
  act_kind a = KTrigger target ->
  ((exists s', snd (resolveNextStateFromAction c body st (Some a)) = Ok s') <->
   ((exists m, schema c = Some m /\
       (target = flow_name (root c) \/ is_Some (m !! target))) /\
    flowActionNames_has f (act_name a) = true)) /\
  (forall s', snd (resolveNextStateFromAction c body st (Some a)) = Ok s' ->
     flow s' = Some target /\ flowKey s' = 0 /\ flowContext s' = ∅ /\
     interactionContext s' =
       (interactionContext st ++ [historyEntry st f a])%list /\
     question s' = question st /\ isComplete s' = isComplete st).
Proof.
  intros Hc Hk. branch Hc. rewrite Hk. cbv beta iota.
  destruct (schema c) as [m|] eqn:Hs.
  - assert (Ha : schema_absent c = false) by (unfold schema_absent; rewrite Hs; reflexivity).
    rewrite Ha, andb_false_r.
    assert (Htarget : triggerTargetCheck c target = Ok tt <->
                      target = flow_name (root c) \/ is_Some (m !! target)).
    { unfold triggerTargetCheck. rewrite Hs.
      destruct (String.eqb_spec target (flow_name (root c))) as [E|E].
      - split; auto.
      - case_bool_decide as Hm; split; intros H; auto.
        + discriminate.
        + destruct H; contradiction. }
    destruct (triggerTargetCheck c target) as [[]|e] eqn:Ht.
    + destruct (flowActionNames_has f (act_name a)) eqn:Hh.
      * destruct (has_declared f a Hh) as (n & Hn & Hh').
        rewrite (pipeUpdate_declared _ _ _ _ _ n _ Hn Hh').
        split.
        -- split; [intros _; split; [exists m; split; [reflexivity|]; apply Htarget|]; auto
                  | intros _; eexists; reflexivity].
        -- intros s' Heq. injection Heq as <-. simpl.
           autorewrite with cookie. repeat split.
      * rewrite (pipeUpdate_undeclared _ _ _ _ _ _ Hh). simpl.
        split.
        -- split; [intros [s' Hs']; discriminate | intros [_ H]; discriminate].
        -- intros s' Hs'; discriminate.
    + simpl. split.
      * split; [intros [s' Hs']; discriminate|].
        intros [(m' & Hm' & Hin) _]. injection Hm' as <-.
        apply Htarget in Hin. discriminate.
      * intros s' Hs'; discriminate.
  - pose proof (getCurrentFlow_no_schema c st f Hs Hc) as Hr.
    assert (Ha : schema_absent c = true) by (unfold schema_absent; rewrite Hs; reflexivity).
    rewrite Hr, Ha. simpl. split.
    + split; [intros [s' Hs']; discriminate|].
      intros [(m' & Hm' & _) _]. discriminate.
    + intros s' Hs'; discriminate.
Qed.

(** One successful transition extends the interaction history. *)
Lemma nextState_history_step (c : FlowController) (body : string)
    (st : SmsCookie) (action : option Action) (s' : SmsCookie) :
  snd (resolveNextStateFromAction c body st action) = Ok s' ->
  exists k, interactionContext s' = (interactionContext st ++ k)%list.
Proof.
  assert (Hinc : forall g s, interactionContext (incrementFlowAction s g) =
                             interactionContext s)
    by (intros g s; apply incrementFlowAction_keeps).
  unfold resolveNextStateFromAction.
  destruct (getCurrentFlow c st) as [f|e]; [|discriminate].
  destruct action as [a|].
  2:{ intros Heq. injection Heq as <-. exists []. simpl.
      rewrite app_nil_r. reflexivity. }
  destruct (act_kind a) as [| |q|target|]; cbv beta iota zeta.
  1,2,5: intros H; apply pipeUpdate_history in H;
         [destruct H as [e He]; eauto | reflexivity | intros; try apply Hinc;
          reflexivity].
  - destruct (q_isAnswered q), (q_isFailed q), (q_continueOnFail q),
      (isAnswering (question st)); cbv beta iota;
      intros H; apply pipeUpdate_history in H;
      first [ reflexivity | intros; reflexivity | intros; apply Hinc
            | destruct H as [e He]; eauto ].
  - destruct (currFlowIsRoot c st && schema_absent c); [discriminate|].
    destruct (triggerTargetCheck c target); [|discriminate].
    intros H; apply pipeUpdate_history in H;
      [destruct H as [e He]; eauto | reflexivity | intros; reflexivity].
Qed.

(** C6: across any sequence of transitions, the interaction history of
    the resulting state extends the initial one: it is never shorter, and
    every earlier entry stays at its index. *)
Theorem runNextStates_history (c : FlowController) (st : SmsCookie)
    (steps : list (string * option Action)) (s' : SmsCookie) :
  runNextStates c st steps = Ok s' ->
  (exists k, interactionContext s' = (interactionContext st ++ k)%list) /\
  length (interactionContext st) <= length (interactionContext s') /\
  (forall i x, interactionContext st !! i = Some x ->
               interactionContext s' !! i = Some x).
Proof.
  intros Hrun.
  assert (Hpre : exists k, interactionContext s' =
                           (interactionContext st ++ k)%list).
  { revert st Hrun. induction steps as [|[body action] rest IH]; intros st Hrun.
    - injection Hrun as <-. exists []. rewrite app_nil_r. reflexivity.
    - simpl in Hrun.
      destruct (snd (resolveNextStateFromAction c body st action))
        as [st1|e] eqn:Hstep; [|discriminate].
      destruct (nextState_history_step c body st action st1 Hstep) as [k1 H1].
      destruct (IH st1 Hrun) as [k2 H2].
      exists (k1 ++ k2)%list. rewrite H2, H1, app_assoc. reflexivity. }
  destruct Hpre as [k Hk]. split; [eauto|]. rewrite Hk. split.
  - rewrite length_app. lia.
  - intros i x Hi. apply lookup_app_l_Some. exact Hi.
Qed.

(** On an error, the input cookie is left as it was. *)
Lemma pipeUpdate_err_input input al r k e :
  snd (pipeUpdate input al r k) = Err e -> fst (pipeUpdate input al r k) = input.
Proof. destruct r as [[x s]|e']; simpl; [discriminate | reflexivity]. Qed.

(** When [resolveNextStateFromAction] raises, the cookie it was given is
    left untouched: the in-place update of [flow] only happens on the
    path that returns a new cookie. *)
Lemma nextState_error_keeps_input (c : FlowController) (body : string)
    (st : SmsCookie) (action : option Action) (e : string) :
  snd (resolveNextStateFromAction c body st action) = Err e ->
  fst (resolveNextStateFromAction c body st action) = st.
Proof.
  unfold resolveNextStateFromAction.
  destruct (getCurrentFlow c st) as [f|e']; [|reflexivity].
  destruct action as [a|]; [|discriminate].
  destruct (act_kind a) as [| |q|target|]; cbv beta iota zeta;
    try apply pipeUpdate_err_input.
  - destruct (q_isAnswered q), (q_isFailed q), (q_continueOnFail q),
      (isAnswering (question st)); cbv beta iota; apply pipeUpdate_err_input.
  - destruct (currFlowIsRoot c st && schema_absent c); [reflexivity|].
    destruct (triggerTargetCheck c target); [|reflexivity].
    apply pipeUpdate_err_input.
Qed.

(** ** Concrete runs *)

Import Samples.

(** C2: on a fresh cookie ([flow] unset), recording a [Reply] writes the
    root's name into the caller's cookie object: the input is mutated. *)
Theorem nextState_mutates_fresh_input :
  flow freshCookie = None /\
  flow (fst (resolveNextStateFromAction fcNoSchema "hi" freshCookie
               (Some (reply "a")))) = Some "root" /\
  fst (resolveNextStateFromAction fcNoSchema "hi" freshCookie
         (Some (reply "a"))) <> freshCookie.
Proof.
  split; [reflexivity|]. split; [reflexivity|].
  intros H. apply (f_equal flow) in H. discriminate.
Qed.

(** C1: from the root, without a schema, a [Trigger] to the root's own
    name (declared step "a") raises an error instead of succeeding. *)
Lemma trigger_root_without_schema_fails :
  getCurrentFlow fcNoSchema freshCookie = Ok rootFlow /\
  snd (resolveNextStateFromAction fcNoSchema "hi" freshCookie
         (Some (trigger "a" "root"))) =
    Err "Cannot use Trigger action without a defined Flow schema".
Proof. split; reflexivity. Qed.

(** C3: an answered question at the last position of the flow leaves the
    position at 1 instead of advancing it to 2 (the interaction
    completes). *)
Lemma answered_question_last_keeps_position :
  exists s',
    snd (resolveNextStateFromAction fcNoSchema "ans" (answeringAt 1)
           (Some (questionAction "b" true false false))) = Ok s' /\
    flowKey (answeringAt 1) = 1 /\ flowKey s' = 1 /\ isComplete s' = true.
Proof. eexists. split; [reflexivity|]. repeat split. Qed.

(** C4: a failed question with [continueOnFail] at the last position
    leaves the position at 1 instead of advancing it (the interaction
    completes). *)
Lemma failed_continue_question_last_keeps_position :
  exists s',
    snd (resolveNextStateFromAction fcNoSchema "no"
           (set_flowKey freshCookie 1)
           (Some (questionAction "b" false true true))) = Ok s' /\
    flowKey s' = 1 /\ isComplete s' = true.
Proof. eexists. split; [reflexivity|]. repeat split. Qed.

(** ** Witnesses: each theorem applied at a concrete input *)

Lemma getCurrentFlow_spec_witness :
  js_falsy (flow freshCookie) = true /\
  getCurrentFlow fcSchema freshCookie = Ok rootFlow.
Proof.
  split; [reflexivity|].
  apply (proj1 (getCurrentFlow_spec fcSchema freshCookie)).
  left. reflexivity.
Defined.

Lemma resolveActionFromState_complete_witness :
  isComplete (completeInteraction freshCookie) = true /\
  resolveActionFromState fcNoSchema "hi" (completeInteraction freshCookie) ∅
    = ([], Ok None).
Proof.
  split; [reflexivity|].
  apply resolveActionFromState_complete. reflexivity.
Defined.

Lemma resolveActionFromState_exit_witness :
  isComplete freshCookie = false /\ testForExit fcNoSchema "exit" = true /\
  resolveActionFromState fcNoSchema "exit" freshCookie ∅
    = ([], Ok (Some (newExit "exit"))).
Proof.
  split; [reflexivity|]. split; [reflexivity|].
  apply resolveActionFromState_exit; reflexivity.
Defined.

Lemma incrementFlowAction_spec_witness :
  flowKey (answeringAt 1) + 1 = flow_length rootFlow /\
  isComplete (incrementFlowAction (answeringAt 1) rootFlow) = true /\
  flowKey (incrementFlowAction (answeringAt 1) rootFlow) = 1.
Proof.
  split; [reflexivity|].
  apply (proj1 (incrementFlowAction_spec (answeringAt 1) rootFlow)).
  reflexivity.
Defined.

Lemma nextState_reply_last_completes_witness :
  flowKey (set_flowKey freshCookie 1) + 1 = flow_length rootFlow /\
  exists s', snd (resolveNextStateFromAction fcNoSchema "hi"
                    (set_flowKey freshCookie 1) (Some (reply "b"))) = Ok s' /\
    isComplete s' = true.
Proof.
  split; [reflexivity|].
  apply (nextState_reply_last_completes fcNoSchema "hi"
           (set_flowKey freshCookie 1) (reply "b") rootFlow);
    [reflexivity | left; reflexivity | reflexivity | reflexivity].
Defined.

Lemma nextState_question_cycle_witness :
  isAnswering (question freshCookie) = false /\
  exists s', snd (resolveNextStateFromAction fcNoSchema "hi" freshCookie
                    (Some (questionAction "a" false false false))) = Ok s' /\
    isAnswering (question s') = true /\ attempts (question s') = [] /\
    flowKey s' = flowKey freshCookie.
Proof.
  split; [reflexivity|].
  apply (proj1 (nextState_question_cycle fcNoSchema "hi" freshCookie
           (questionAction "a" false false false)
           (questionData false false false) rootFlow
           eq_refl eq_refl eq_refl)); reflexivity.
Defined.

Lemma nextState_question_failed_witness :
  q_continueOnFail (questionData false true false) = false /\
  exists s', snd (resolveNextStateFromAction fcNoSchema "no" freshCookie
                    (Some (questionAction "a" false true false))) = Ok s' /\
    recordsContext freshCookie rootFlow (questionAction "a" false true false) s' /\
    isComplete s' = true.
Proof.
  split; [reflexivity|].
  apply (proj1 (nextState_question_failed fcNoSchema "no" freshCookie
           (questionAction "a" false true false)
           (questionData false true false) rootFlow
           eq_refl eq_refl eq_refl eq_refl eq_refl)); reflexivity.
Defined.

Lemma nextState_trigger_witness :
  getCurrentFlow fcSchema freshCookie = Ok rootFlow /\
  exists s', snd (resolveNextStateFromAction fcSchema "hi" freshCookie
                    (Some (trigger "a" "other"))) = Ok s'.
Proof.
  split; [reflexivity|].
  apply (proj1 (nextState_trigger fcSchema "hi" freshCookie
           (trigger "a" "other") "other" rootFlow eq_refl eq_refl)).
  split; [|reflexivity].
  eexists. split; [reflexivity|]. right. eexists. reflexivity.
Defined.

Lemma runNextStates_history_witness :
  exists s', runNextStates fcSchema freshCookie
               [("hi", Some (reply "a")); ("hi", Some (trigger "b" "other"))]
             = Ok s' /\
    length (interactionContext freshCookie) <= length (interactionContext s').
Proof.
  eexists. split; [reflexivity|].
  apply (proj1 (proj2 (runNextStates_history fcSchema freshCookie
           [("hi", Some (reply "a")); ("hi", Some (trigger "b" "other"))]
           _ eq_refl))).
Defined.

(** * Further properties of the controller, the handler and the helpers *)

(** An [Exit] built by [new Exit(body)] carries no name, so recording it
    fails. *)
Lemma nextState_exit_err (c : FlowController) (body : string)
    (st : SmsCookie) (b : string) :
  exists e, snd (resolveNextStateFromAction c body st (Some (newExit b))) = Err e.
Proof.
  unfold resolveNextStateFromAction.
  destruct (getCurrentFlow c st); simpl; eexists; reflexivity.
Qed.

(** The [Exit] action the controller produces for an exit keyword is
    never accepted by [resolveNextStateFromAction]: it has no name, so
    recording its context always raises an error (or resolving the flow
    already did). *)
Theorem exit_action_transition_fails (c : FlowController) (body : string)
    (st : SmsCookie) (b : string) :
  exists e, snd (resolveNextStateFromAction c body st (Some (newExit b))) = Err e.
Proof. apply nextState_exit_err. Qed.

Lemma incrementFlowAction_complete s g :
  isComplete s = true -> isComplete (incrementFlowAction s g) = true.
Proof.
  intros H. unfold incrementFlowAction. simpl.
  destruct (Nat.eqb _ _); [reflexivity | exact H].
Qed.

Lemma pipeUpdate_isComplete input al st0 f a k s' :
  isComplete st0 = true ->
  (forall s, isComplete s = true -> isComplete (k s) = true) ->
  snd (pipeUpdate input al (updateContext st0 f a) k) = Ok s' ->
  isComplete s' = true.
Proof.
  intros H0 Hk. destruct (flowActionNames_has f (act_name a)) eqn:Hh.
  - destruct (has_declared f a Hh) as (n & Hn & Hh').
    rewrite (pipeUpdate_declared input al st0 f a n k Hn Hh').
    intros Heq. injection Heq as <-. apply Hk. simpl.
    autorewrite with cookie. exact H0.
  - rewrite (pipeUpdate_undeclared input al st0 f a k Hh). discriminate.
Qed.

(** A transition never turns a complete conversation back into an
    incomplete one: [isComplete] only goes from false to true. *)
Theorem nextState_isComplete_monotone (c : FlowController) (body : string)
    (st : SmsCookie) (action : option Action) (s' : SmsCookie) :
  isComplete st = true ->
  snd (resolveNextStateFromAction c body st action) = Ok s' ->
  isComplete s' = true.
Proof.
  intros Hst. unfold resolveNextStateFromAction.
  destruct (getCurrentFlow c st) as [f|e]; [|discriminate].
  destruct action as [a|].
  2:{ intros Heq. injection Heq as <-. reflexivity. }
  destruct (act_kind a) as [| |q|target|]; cbv beta iota zeta.
  1,2,5: intros H; apply pipeUpdate_isComplete in H;
         first [ exact H | exact Hst | intros; reflexivity
               | intros; apply incrementFlowAction_complete; assumption ].
  - destruct (q_isAnswered q), (q_isFailed q), (q_continueOnFail q),
      (isAnswering (question st)); cbv beta iota;
      intros H; apply pipeUpdate_isComplete in H;
      first [ exact H | exact Hst | intros; reflexivity | intros; assumption
            | intros; apply incrementFlowAction_complete; assumption ].
  - destruct (currFlowIsRoot c st && schema_absent c); [discriminate|].
    destruct (triggerTargetCheck c target); [|discriminate].
    intros H; apply pipeUpdate_isComplete in H;
      first [ exact H | exact Hst | intros; assumption ].
Qed.

(** A pending question (neither answered nor failed) on a state that is
    already answering appends the inbound body as one more attempt,
    stays answering, keeps the position and does not complete. *)
Theorem nextState_question_pending_answering (c : FlowController)
    (body : string) (st : SmsCookie) (a : Action) (q : QuestionData)
    (f : Flow) :
  getCurrentFlow c st = Ok f ->
  act_kind a = KQuestion q ->
  q_isAnswered q = false -> q_isFailed q = false ->
  isAnswering (question st) = true ->
  flowActionNames_has f (act_name a) = true ->
  exists s', snd (resolveNextStateFromAction c body st (Some a)) = Ok s' /\
    attempts (question s') = (attempts (question st) ++ [body])%list /\
    isAnswering (question s') = true /\
    flowKey s' = flowKey st /\ isComplete s' = isComplete st.
Proof.
  intros Hc Hk Hans Hfail Hing Hh. destruct (has_declared f a Hh) as (n & Hn & Hh').
  branch Hc. rewrite Hk, Hans, Hfail, Hing. cbv beta iota.
  rewrite (pipeUpdate_declared _ _ _ _ _ n _ Hn Hh').
  eexists; split; [reflexivity|].
  simpl. autorewrite with cookie. simpl. rewrite Hing. auto.
Qed.

(** Every question transition that succeeds records the question's
    context. *)
Lemma nextState_question_records (c : FlowController) (body : string)
    (st : SmsCookie) (a : Action) (q : QuestionData) (f : Flow) :
  getCurrentFlow c st = Ok f ->
  act_kind a = KQuestion q ->
  flowActionNames_has f (act_name a) = true ->
  exists s', snd (resolveNextStateFromAction c body st (Some a)) = Ok s' /\
    recordsContext st f a s'.
Proof.
  intros Hc Hk Hh. destruct (has_declared f a Hh) as (n & Hn & Hh').
  branch Hc. rewrite Hk.
  destruct (q_isAnswered q), (q_isFailed q), (q_continueOnFail q),
    (isAnswering (question st)) eqn:Hing; cbv beta iota;
    rewrite (pipeUpdate_declared _ _ _ _ _ n _ Hn Hh');
    eexists; (split; [reflexivity|]);
    first [ apply recordsContext_increment | apply recordsContext_complete
          | idtac ];
    apply (updateContext_records st _ f a n Hn); reflexivity.
Qed.

(** Recording a question keeps the delivery receipts recorded before
    under its name: the [messageSid] list in its flow-context snapshot
    becomes the previous list followed by the question's own receipts. *)
Theorem nextState_question_keeps_receipts (c : FlowController)
    (body : string) (st : SmsCookie) (a : Action) (q : QuestionData)
    (f : Flow) (n : string) (prev : ActionContext) (sids : list string) :
  getCurrentFlow c st = Ok f ->
  act_kind a = KQuestion q ->
  act_name a = Some n ->
  flowActionNames_has f (Some n) = true ->
  flowContext st !! n = Some prev ->
  prev !! "messageSid" = Some (CStrList sids) ->
  exists s', snd (resolveNextStateFromAction c body st (Some a)) = Ok s' /\
    exists snap, flowContext s' !! n = Some snap /\
      snap !! "messageSid" = Some (CStrList (sids ++ q_sid q)%list).
Proof.
  intros Hc Hk Hn Hh Hprev Hsid.
  assert (Hh2 : flowActionNames_has f (act_name a) = true) by (rewrite Hn; exact Hh).
  destruct (nextState_question_records c body st a q f Hc Hk Hh2)
    as (s' & Hs' & (n' & Hn' & Hfc & _)).
  rewrite Hn in Hn'. injection Hn' as <-.
  exists s'. split; [exact Hs'|].
  eexists. rewrite Hfc, lookup_insert_eq. split; [reflexivity|].
  unfold getActionContext. rewrite Hk, lookup_insert_eq.
  unfold recordQuestionMessageSid. rewrite Hn, Hprev, Hsid. reflexivity.
Qed.

Lemma nth_error_step_declared (f : Flow) (k : nat) (nm : string) (r : Resolver) :
  nth_error (flow_steps f) k = Some (nm, r) ->
  flowActionNames_has f (Some nm) = true.
Proof.
  intros H. apply nth_error_In in H. simpl.
  apply existsb_exists. exists nm. split.
  - apply (in_map fst) in H. exact H.
  - apply String.eqb_refl.
Qed.

(** Outside the exit path, the action [resolveActionFromState] returns
    carries the name of the one step whose resolver it invoked, and that
    name is declared on the current flow, so recording it in the next
    transition does not fail on the name. *)
Theorem resolveActionFromState_named (c : FlowController) (body : string)
    (st : SmsCookie) (u : UserCtx) (calls : list string) (a : Action) :
  testForExit c body = false ->
  resolveActionFromState c body st u = (calls, Ok (Some a)) ->
  exists f nm, getCurrentFlow c st = Ok f /\ calls = [nm] /\
    act_name a = Some nm /\ flowActionNames_has f (act_name a) = true.
Proof.
  intros Hx. unfold resolveActionFromState. rewrite Hx.
  destruct (isComplete st); [discriminate|].
  destruct (getCurrentFlow c st) as [f|e]; [|discriminate].
  unfold flowSelectActionResolver.
  destruct (nth_error (flow_steps f) (flowKey st)) as [[nm r]|] eqn:Hk;
    [|discriminate].
  destruct (r (flowContext st) u) as [a0|]; intros Heq; [|discriminate].
  injection Heq as <- <-. exists f, nm. repeat split.
  simpl. apply (nth_error_step_declared f (flowKey st) nm r Hk).
Qed.

(** A position past the end of the current flow resolves to no action,
    without invoking any resolver. *)
Theorem resolveActionFromState_out_of_range (c : FlowController)
    (body : string) (st : SmsCookie) (u : UserCtx) (f : Flow) :
  isComplete st = false -> testForExit c body = false ->
  getCurrentFlow c st = Ok f ->
  flow_length f <= flowKey st ->
  resolveActionFromState c body st u = ([], Ok None).
Proof.
  intros H1 H2 Hc Hle. unfold resolveActionFromState.
  rewrite H1, H2, Hc. unfold flowSelectActionResolver.
  assert (Hn : nth_error (flow_steps f) (flowKey st) = None)
    by (apply nth_error_None; exact Hle).
  rewrite Hn. reflexivity.
Qed.

Lemma js_falsy_nonempty (t : string) : t <> "" -> js_falsy (Some t) = false.
Proof. destruct t; [contradiction | reflexivity]. Qed.

(** After a successful [Trigger] to a non-empty target, the new state
    resolves to the target flow: the root when the target is the root's
    name, and otherwise the schema's flow of that name. *)
Theorem trigger_then_getCurrentFlow (c : FlowController) (body : string)
    (st : SmsCookie) (a : Action) (target : string) (s' : SmsCookie) :
  act_kind a = KTrigger target -> target <> "" ->
  snd (resolveNextStateFromAction c body st (Some a)) = Ok s' ->
  (target = flow_name (root c) /\ getCurrentFlow c s' = Ok (root c)) \/
  (exists m g, schema c = Some m /\ m !! target = Some g /\
     getCurrentFlow c s' = Ok g).
Proof.
  intros Hk Hne. unfold resolveNextStateFromAction.
  destruct (getCurrentFlow c st) as [f|e]; [|discriminate].
  rewrite Hk. cbv beta iota.
  destruct (currFlowIsRoot c st && schema_absent c); [discriminate|].
  destruct (triggerTargetCheck c target) as [[]|e] eqn:Ht; [|discriminate].
  destruct (flowActionNames_has f (act_name a)) eqn:Hh.
  2:{ rewrite (pipeUpdate_undeclared _ _ _ _ _ _ Hh). discriminate. }
  destruct (has_declared f a Hh) as (n & Hn & Hh').
  rewrite (pipeUpdate_declared _ _ _ _ _ n _ Hn Hh').
  intros Heq. injection Heq as <-.
  unfold getCurrentFlow. cbn [handleTrigger set_flowContext set_flowKey set_flow flow].
  rewrite (js_falsy_nonempty target Hne). simpl orb.
  unfold triggerTargetCheck in Ht.
  destruct (String.eqb_spec target (flow_name (root c))) as [E|E].
  - left. split; [exact E|]. rewrite bool_decide_eq_true_2 by congruence.
    reflexivity.
  - right. rewrite bool_decide_eq_false_2 by congruence.
    destruct (schema c) as [m|]; [|discriminate].
    case_bool_decide as Hm; [|discriminate].
    destruct Hm as [g Hg]. exists m, g. rewrite Hg. auto.
Qed.

(** The actions handed to delivery, whatever the loop's end. *)

Lemma deliveryLoop_history handleAction fuel c body u st action sent st' :
  deliveryLoop handleAction fuel c body u st action = LoopDone sent st' ->
  exists k, interactionContext st' = (interactionContext st ++ k)%list.
Proof.
  revert st action sent.
  induction fuel as [|fuel IH]; intros st action sent; simpl; [discriminate|].
  destruct (handleAction action); [|discriminate].
  destruct (snd (resolveNextStateFromAction c body st (Some action)))
    as [st1|e] eqn:Hstep; [|discriminate].
  destruct (nextState_history_step c body st (Some action) st1 Hstep) as [k1 H1].
  assert (Hinner : forall o, loopPrepend action o = LoopDone sent st' ->
            (o = LoopDone (tail sent) st')) by
    (intros [] Ho; simpl in Ho; try discriminate; injection Ho; intros; subst; reflexivity).
  destruct (loopBreaks st1 action).
  - intros H. apply Hinner in H. injection H; intros; subst; exists k1; exact H1.
  - destruct (snd (resolveActionFromState c body st1 u)) as [[a1|]|e1].
    + intros H. apply Hinner, IH in H. destruct H as [k2 H2].
      exists (k1 ++ k2)%list. rewrite H2, H1, app_assoc. reflexivity.
    + intros H. apply Hinner in H. injection H; intros; subst; exists k1; exact H1.
    + intros H. apply Hinner in H. discriminate.
Qed.

(** In the sequence of actions the delivery loop hands out, a question
    that is not complete (still pending) is always the last one: the
    loop stops after delivering it, waiting for the next inbound
    message. *)
Theorem deliveryLoop_pending_question_last handleAction fuel c body u st action
    (pre post : list Action) (a : Action) (q : QuestionData) :
  loopSent (deliveryLoop handleAction fuel c body u st action) =
    (pre ++ a :: post)%list ->
  act_kind a = KQuestion q -> questionIsComplete a = false ->
  post = [].
Proof.
  intros Hsent Hk Hpend. revert st action pre Hsent.
  induction fuel as [|fuel IH]; intros st action pre; simpl.
  - intros H. destruct pre; discriminate.
  - destruct (handleAction action).
    2:{ intros H. destruct pre; discriminate. }
    set (inner := match snd (resolveNextStateFromAction c body st (Some action)) with
                  | Ok st' => _ | Err _ => _ end).
    assert (Hps : loopSent (loopPrepend action inner) = action :: loopSent inner)
      by (destruct inner; reflexivity).
    rewrite Hps. intros H. destruct pre as [|x pre'].
    + injection H as -> Hpost. subst inner.
      destruct (snd (resolveNextStateFromAction c body st (Some a))) as [st1|e];
        [|symmetry; exact Hpost].
      unfold loopBreaks in Hpost. rewrite Hk, Hpend, orb_true_r in Hpost.
      symmetry. exact Hpost.
    + injection H as _ H. subst inner.
      destruct (snd (resolveNextStateFromAction c body st (Some action))) as [st1|e];
        [|destruct pre'; discriminate].
      destruct (loopBreaks st1 action); [destruct pre'; discriminate|].
      destruct (snd (resolveActionFromState c body st1 u)) as [[a'|]|e];
        [exact (IH st1 a' pre' H) | destruct pre'; discriminate
        | destruct pre'; discriminate].
Qed.



(** A cookie the handler persists is never complete, and its interaction
    history extends the history of the cookie it received. *)
Theorem webhook_persisted_cookie handleAction fuel c body u st o s :
  handleIncomingSmsWebhook handleAction fuel c body u st = Some o ->
  wh_cookie o = CookieSet s ->
  isComplete s = false /\
  exists k, interactionContext s = (interactionContext st ++ k)%list.
Proof.
  assert (Hfin : forall sent st1 o, finishState sent st1 = o ->
             wh_cookie o = CookieSet s -> isComplete s = false /\ st1 = s).
  { intros sent st1 o' <-. unfold finishState.
    destruct (isComplete st1) eqn:E; simpl; [discriminate|].
    intros Hs. injection Hs as <-. auto. }
  unfold handleIncomingSmsWebhook.
  destruct (snd (resolveActionFromState c body st u)) as [[a|]|e].
  - destruct (deliveryLoop handleAction fuel c body u st a) as [sent st1|sent|sent]
      eqn:Hl; intros Ho; [| |discriminate Ho]; injection Ho as <-;
      try discriminate.
    intros Hc. destruct (Hfin sent st1 _ eq_refl Hc) as [Hs <-].
    split; [exact Hs|]. exact (deliveryLoop_history _ _ _ _ _ _ _ _ _ Hl).
  - intros Ho; injection Ho as <-. intros Hc.
    destruct (Hfin [] st _ eq_refl Hc) as [Hs <-]. split; [exact Hs|].
    exists []. rewrite app_nil_r. reflexivity.
  - intros Ho; injection Ho as <-. discriminate.
Qed.

(** ** The default exit test *)

Lemma is_word_char_to_lower a : is_word_char (to_lower a) = is_word_char a.
Proof. destruct a as [[] [] [] [] [] [] [] []]; reflexivity. Qed.

Lemma to_lower_idem a : to_lower (to_lower a) = to_lower a.
Proof. destruct a as [[] [] [] [] [] [] [] []]; reflexivity. Qed.

Lemma wordAt_map_lower l p : wordAt (map to_lower l) p = wordAt l p.
Proof.
  unfold wordAt. rewrite List.nth_error_map.
  destruct (nth_error l p); simpl; [apply is_word_char_to_lower | reflexivity].
Qed.

Lemma wordBoundary_map_lower l p :
  wordBoundary (map to_lower l) p = wordBoundary l p.
Proof.
  unfold wordBoundary. rewrite wordAt_map_lower.
  destruct p; [reflexivity|]. rewrite wordAt_map_lower. reflexivity.
Qed.

Lemma existsb_pointwise {A} (f g : A -> bool) (l : list A) :
  (forall x, f x = g x) -> existsb f l = existsb g l.
Proof. intros H. induction l as [|x l IH]; simpl; [reflexivity|]. rewrite H, IH. reflexivity. Qed.

(** The exit test is case-insensitive: lower-casing the body does not
    change its result. *)
Theorem defaultTestForExit_case_insensitive (body : string) :
  exitRegexpTest (map to_lower (String.list_ascii_of_string body)) =
  defaultTestForExit body.
Proof.
  unfold defaultTestForExit, exitRegexpTest.
  set (l := String.list_ascii_of_string body).
  rewrite List.length_map. apply existsb_pointwise. intros i.
  unfold exitMatchAt. rewrite !wordBoundary_map_lower.
  rewrite List.skipn_map, List.firstn_map, List.map_map.
  rewrite (List.map_ext (fun x => to_lower (to_lower x)) to_lower to_lower_idem).
  reflexivity.
Qed.

Lemma nth_error_after {A} (pre r : list A) j :
  nth_error (pre ++ r) (length pre + j) = nth_error r j.
Proof.
  rewrite nth_error_app2 by lia. f_equal. lia.
Qed.

Lemma skipn_after {A} (pre r : list A) : skipn (length pre) (pre ++ r) = r.
Proof. induction pre as [|x pre IH]; simpl; [reflexivity | exact IH]. Qed.

(** The default exit test matches any body containing "exit" in any
    letter case as a whole word: preceded by the start of the body or a
    non-word character, and followed by the end of the body or a
    non-word character. *)
Theorem defaultTestForExit_whole_word (body : string)
    (pre w post : list ascii) :
  String.list_ascii_of_string body = (pre ++ w ++ post)%list ->
  map to_lower w = exitWord ->
  (pre = [] \/ exists pre' ch, pre = (pre' ++ [ch])%list /\
                               is_word_char ch = false) ->
  match post with ch :: _ => is_word_char ch = false | [] => True end ->
  defaultTestForExit body = true.
Proof.
  intros Hb Hw Hpre Hpost.
  destruct w as [|w0 [|w1 [|w2 [|w3 [|w4 w']]]]]; try discriminate Hw.
  simpl in Hw. injection Hw as H0 H1 H2 H3.
  assert (Hword : forall a ch, to_lower a = ch -> is_word_char ch = true ->
                  is_word_char a = true)
    by (intros a ch <- Hc; rewrite is_word_char_to_lower in Hc; exact Hc).
  unfold defaultTestForExit, exitRegexpTest. rewrite Hb.
  apply existsb_exists. exists (length pre). split.
  { apply in_seq. rewrite !length_app. simpl. lia. }
  unfold exitMatchAt. apply andb_true_intro. split; [apply andb_true_intro; split|].
  - unfold wordBoundary.
    assert (Hat : wordAt (pre ++ [w0; w1; w2; w3] ++ post) (length pre) = true).
    { unfold wordAt. rewrite <- (Nat.add_0_r (length pre)), nth_error_after.
      simpl. apply (Hword w0 "e"%char H0). reflexivity. }
    rewrite Hat. destruct Hpre as [-> | (pre' & ch & -> & Hch)]; [reflexivity|].
    rewrite length_app. simpl. rewrite Nat.add_1_r. unfold wordAt.
    rewrite <- app_assoc, <- (Nat.add_0_r (length pre')), nth_error_after.
    simpl. rewrite Hch. reflexivity.
  - rewrite skipn_after. simpl. rewrite H0, H1, H2, H3.
    apply bool_decide_eq_true_2. reflexivity.
  - unfold wordBoundary.
    assert (Hbefore : wordAt (pre ++ [w0; w1; w2; w3] ++ post) (length pre + 3)
                      = true).
    { unfold wordAt. rewrite nth_error_after. simpl.
      apply (Hword w3 "t"%char H3). reflexivity. }
    assert (Hafter : wordAt (pre ++ [w0; w1; w2; w3] ++ post) (length pre + 4)
                     = false).
    { unfold wordAt. rewrite nth_error_after. simpl.
      destruct post as [|ch post']; [reflexivity | exact Hpost]. }
    rewrite Hafter. rewrite (Nat.add_succ_r (length pre) 3).
    cbv beta iota. rewrite Hbefore. reflexivity.
Qed.

(** ** Construction *)

(** A controller the constructor accepts has a non-empty root, so on a
    newly created cookie (no exit keyword in the body) it resolves the
    first step of the root flow: exactly that step's resolver is invoked,
    on the empty flow context, and its action is named after the step. *)
Theorem newFlowController_fresh_cookie (rt : Flow)
    (evaluated : option (gmap string Flow)) (t : string -> bool)
    (c : FlowController) (now : Z) (sender id body : string) (u : UserCtx) :
  newFlowController rt evaluated t = Ok c ->
  t body = false ->
  exists nm r, nth_error (flow_steps rt) 0 = Some (nm, r) /\
    resolveActionFromState c body (createSmsCookie now sender id) u =
      ([nm], Ok (option_map
                   (fun a => actionSetName
                               (questionEvaluate body (createSmsCookie now sender id) a) nm)
                   (r ∅ u))).
Proof.
  intros Hc Ht. unfold newFlowController in Hc.
  destruct (flow_steps rt) as [|[nm r] steps] eqn:Hs.
  { unfold flow_length in Hc. rewrite Hs in Hc. discriminate. }
  assert (Hroot : root c = rt /\ testForExit c = t).
  { unfold flow_length in Hc. rewrite Hs in Hc. simpl in Hc.
    destruct evaluated as [m|].
    - destruct (Nat.eqb (size m) 1); [discriminate|].
      injection Hc as <-. auto.
    - injection Hc as <-. auto. }
  destruct Hroot as [Hr Hte].
  exists nm, r. split; [reflexivity|].
  unfold resolveActionFromState. simpl. rewrite Hte, Ht.
  unfold getCurrentFlow. simpl. rewrite Hr.
  unfold flowSelectActionResolver. rewrite Hs. simpl.
  destruct (r ∅ u); reflexivity.
Qed.

(** ** Witnesses of the further properties *)

Import HandlerSamples.

Lemma nextState_isComplete_monotone_witness :
  isComplete (completeInteraction freshCookie) = true /\
  isComplete (completeInteraction (completeInteraction freshCookie)) = true.
Proof.
  split; [reflexivity|].
  apply (nextState_isComplete_monotone fcNoSchema "hi"
           (completeInteraction freshCookie) None); reflexivity.
Defined.

Lemma nextState_question_pending_answering_witness :
  exists s', snd (resolveNextStateFromAction fcNoSchema "maybe" (answeringAt 0)
                    (Some (questionAction "a" false false false))) = Ok s' /\
    attempts (question s') = (attempts (question (answeringAt 0)) ++ ["maybe"])%list /\
    isAnswering (question s') = true /\
    flowKey s' = flowKey (answeringAt 0) /\
    isComplete s' = isComplete (answeringAt 0).
Proof.
  apply (nextState_question_pending_answering fcNoSchema "maybe" (answeringAt 0)
           (questionAction "a" false false false) (questionData false false false)
           rootFlow); reflexivity.
Defined.

Lemma nextState_question_keeps_receipts_witness :
  exists s', snd (resolveNextStateFromAction fcNoSchema "hi" cookieWithReceipt
                    (Some (mkAction (Some "a") (KQuestion receiptQuestion) ∅))) = Ok s' /\
    exists snap, flowContext s' !! "a" = Some snap /\
      snap !! "messageSid" = Some (CStrList ["SM1"; "SM2"]).
Proof.
  apply (nextState_question_keeps_receipts fcNoSchema "hi" cookieWithReceipt
           (mkAction (Some "a") (KQuestion receiptQuestion) ∅) receiptQuestion
           rootFlow "a" {[ "messageSid" := CStrList ["SM1"] ]} ["SM1"]);
    reflexivity.
Defined.

Lemma resolveActionFromState_named_witness :
  exists f nm, getCurrentFlow fcNoSchema freshCookie = Ok f /\ ["a"] = [nm] /\
    act_name (reply "a") = Some nm /\ flowActionNames_has f (act_name (reply "a")) = true.
Proof.
  apply (resolveActionFromState_named fcNoSchema "hi" freshCookie ∅ ["a"] (reply "a"));
    reflexivity.
Defined.

Lemma resolveActionFromState_out_of_range_witness :
  flow_length rootFlow <= flowKey (set_flowKey freshCookie 2) /\
  resolveActionFromState fcNoSchema "hi" (set_flowKey freshCookie 2) ∅ = ([], Ok None).
Proof.
  split; [vm_compute; lia|].
  apply (resolveActionFromState_out_of_range fcNoSchema "hi"
           (set_flowKey freshCookie 2) ∅ rootFlow); try reflexivity.
Defined.

Lemma trigger_then_getCurrentFlow_witness :
  exists s', snd (resolveNextStateFromAction fcSchema "hi" freshCookie
                    (Some (trigger "a" "other"))) = Ok s' /\
    ((("other" = flow_name (root fcSchema)) /\ getCurrentFlow fcSchema s' = Ok (root fcSchema)) \/
     (exists m g, schema fcSchema = Some m /\ m !! "other" = Some g /\
        getCurrentFlow fcSchema s' = Ok g)).
Proof.
  eexists. split; [reflexivity|].
  apply (trigger_then_getCurrentFlow fcSchema "hi" freshCookie
           (trigger "a" "other") "other"); [reflexivity | discriminate | reflexivity].
Defined.

Lemma deliveryLoop_pending_question_last_witness :
  exists pre a post,
    loopSent (deliveryLoop deliverAll 5 fcQuiz "hi" ∅ freshCookie (reply "a")) =
      (pre ++ a :: post)%list /\
    act_kind a = KQuestion pendingQuestion /\ questionIsComplete a = false /\
    post = [].
Proof.
  exists [reply "a"], (mkAction (Some "q") (KQuestion pendingQuestion)
                                {[ "prompt" := CStr "q" ]}), [].
  split; [reflexivity|]. split; [reflexivity|].
  split; [reflexivity|].
  apply (deliveryLoop_pending_question_last deliverAll 5 fcQuiz "hi" ∅
           freshCookie (reply "a") [reply "a"] []
           (mkAction (Some "q") (KQuestion pendingQuestion) {[ "prompt" := CStr "q" ]})
           pendingQuestion); reflexivity.
Defined.



Lemma webhook_persisted_cookie_witness :
  exists o s, handleIncomingSmsWebhook deliverAll 5 fcQuiz "hi" ∅ freshCookie = Some o /\
    wh_cookie o = CookieSet s /\ isComplete s = false /\
    exists k, interactionContext s = (interactionContext freshCookie ++ k)%list.
Proof.
  do 2 eexists. split; [reflexivity|]. split; [reflexivity|].
  eapply (webhook_persisted_cookie deliverAll 5 fcQuiz "hi" ∅ freshCookie);
    reflexivity.
Defined.

Lemma defaultTestForExit_whole_word_witness :
  String.list_ascii_of_string "please Exit now" =
    (String.list_ascii_of_string "please " ++ String.list_ascii_of_string "Exit"
       ++ String.list_ascii_of_string " now")%list /\
  defaultTestForExit "please Exit now" = true.
Proof.
  split; [reflexivity|].
  apply (defaultTestForExit_whole_word "please Exit now"
           (String.list_ascii_of_string "please ") (String.list_ascii_of_string "Exit")
           (String.list_ascii_of_string " now")).
  - reflexivity.
  - reflexivity.
  - right. exists (String.list_ascii_of_string "please"), " "%char.
    split; reflexivity.
  - reflexivity.
Defined.

Lemma newFlowController_fresh_cookie_witness :
  newFlowController rootFlow None exitTest = Ok fcNoSchema /\
  exists nm r, nth_error (flow_steps rootFlow) 0 = Some (nm, r) /\
    resolveActionFromState fcNoSchema "hi" (createSmsCookie 0 "+1" "id1") ∅ =
      ([nm], Ok (option_map
                   (fun a => actionSetName
                               (questionEvaluate "hi" (createSmsCookie 0 "+1" "id1") a) nm)
                   (r ∅ ∅))).
Proof.
  split; [reflexivity|].
  apply (newFlowController_fresh_cookie rootFlow None exitTest fcNoSchema);
    reflexivity.
Defined.

Lemma nextState_error_keeps_input_witness :
  exists e, snd (resolveNextStateFromAction fcNoSchema "exit" freshCookie
                   (Some (newExit "exit"))) = Err e /\
    fst (resolveNextStateFromAction fcNoSchema "exit" freshCookie
           (Some (newExit "exit"))) = freshCookie.
Proof.
  eexists. split; [reflexivity|].
  eapply (nextState_error_keeps_input fcNoSchema "exit" freshCookie
            (Some (newExit "exit"))). reflexivity.
Defined.
